(** * ceml: counterfactuals of isolation forests

    A shallow embedding of [ceml/sklearn/isolationforest.py]:
    the loss [IsolationForestCost], the per-tree candidate generator
    [__compute_counterfactuals_isolationtree], the initial-value generator
    [__compute_initial_values], the search loop [compute_counterfactual] and
    the entry point [isolationforest_generate_counterfactual].

    Feature values (numpy floats) are modelled as exact rationals [Q];
    Python integers as [Z] or [nat]; a raised exception as a value of [exn]. *)

From Stdlib Require Import String.
From Stdlib Require Import List ZArith QArith Qabs Bool Arith Lia Permutation.
Import ListNotations.

Open Scope Q_scope.

(** ** Data *)

(** An input vector: a one-dimensional numpy array of floats. *)
Definition vec := list Q.

(** Python exceptions the module can raise. *)
Inductive exn :=
| TypeError
| ValueError
| NoCounterfactualFound.

(** ** The fitted trees (scikit-learn's [Tree])

    scikit-learn stores a tree in parallel arrays indexed by node id, the ids
    given in depth-first pre-order.  The inductive tree below is that
    structure; a node's id is its pre-order rank. *)
Inductive tree :=
| Leaf
| Node (feature : nat) (threshold : Q) (left right : tree).

Fixpoint node_count (t : tree) : nat :=
  match t with
  | Leaf => 1
  | Node _ _ l r => S (node_count l + node_count r)
  end.

(** [x[feature]]; the fitted tree only tests features the input has.  An
    index past the end of [x], where Python raises [IndexError], reads 0
    here. *)
Definition feature_value (x : vec) (f : nat) : Q := nth f x 0.

(** scikit-learn sends a sample to the left child when
    [x[feature] <= threshold].  It compares the sample after its cast to
    single precision; the cast is not modelled, the value is compared as it
    is. *)
Definition goes_left (x : vec) (f : nat) (th : Q) : bool :=
  Qle_bool (feature_value x f) th.

(** [model.decision_path([x])[0]]: the node-indicator row of [x], one entry
    per node id, 1 on every node the sample passes through.  scikit-learn
    marks each internal node on the way and then the leaf it ends in. *)
Fixpoint decision_path (t : tree) (x : vec) : list nat :=
  match t with
  | Leaf => [1%nat]
  | Node f th l r =>
      if goes_left x f th
      then 1%nat :: decision_path l x ++ repeat 0%nat (node_count r)
      else 1%nat :: repeat 0%nat (node_count l) ++ decision_path r x
  end.

(** [.sum()] of an indicator row. *)
Definition indicator_sum (row : list nat) : nat := list_sum row.

(** [.indices] of an indicator row: the ids of its non-zero entries. *)
Fixpoint indices_from (i : nat) (row : list nat) : list nat :=
  match row with
  | [] => []
  | b :: row' =>
      if Nat.eqb b 0 then indices_from (S i) row' else i :: indices_from (S i) row'
  end.

Definition indices (row : list nat) : list nat := indices_from 0 row.

(** The number of edges between the root and the leaf [x] reaches. *)
Fixpoint path_edges (t : tree) (x : vec) : nat :=
  match t with
  | Leaf => 0
  | Node f th l r => S (path_edges (if goes_left x f th then l else r) x)
  end.

(** ** numpy helpers *)

Definition Qsum (l : list Q) : Q := fold_right Qplus 0 l.

(** [np.mean] of a list of integers; [None] stands for the [nan] numpy
    returns on an empty list. *)
Definition np_mean (l : list nat) : option Q :=
  match l with
  | [] => None
  | _ => Some (inject_Z (Z.of_nat (list_sum l)) / inject_Z (Z.of_nat (length l)))
  end.

(** [np.min] and [np.max] of a list of integers; [None] stands for the
    [ValueError] numpy raises on an empty list. *)
Definition np_min (l : list nat) : option nat :=
  match l with
  | [] => None
  | a :: l' => Some (fold_left Nat.min l' a)
  end.

Definition np_max (l : list nat) : option nat :=
  match l with
  | [] => None
  | a :: l' => Some (fold_left Nat.max l' a)
  end.

(** Element-wise [x - cf] of two arrays of the same shape. *)
Fixpoint vec_sub (x cf : vec) : vec :=
  match x, cf with
  | a :: x', b :: cf' => (a - b) :: vec_sub x' cf'
  | _, _ => []
  end.

(** ** [IsolationForestCost] *)

Definition input_wrapper_t := vec -> vec.

Record IsolationForestCost := mkIsolationForestCost {
  models : list tree;
  num_models : nat;
  y_target : Z;
  input_wrapper : option input_wrapper_t
}.

(** [IsolationForestCost.__init__(models, y_target, input_wrapper, epsilon)]:
    the three attributes are set and [input_wrapper] is handed to the parent
    class; [epsilon] is bound and not used. *)
Definition IsolationForestCost_init (models : list tree) (y_target : Z)
    (input_wrapper : option input_wrapper_t) (epsilon : Q) : IsolationForestCost :=
  {| models := models;
     num_models := length models;
     y_target := y_target;
     input_wrapper := input_wrapper |}.

(** [score_impl]:
    [-1. * self.y_target * np.mean([m.decision_path([x])[0].sum() for m in self.models])];
    [None] is the [nan] of an empty ensemble. *)
Definition score_impl (self : IsolationForestCost) (x : vec) : option Q :=
  option_map (fun m => (-1) * inject_Z (y_target self) * m)
    (np_mean (map (fun model => indicator_sum (decision_path model x)) (models self))).

(** The loss as the specification words it: minus the target sign times the
    mean, over the trees, of the number of edges from the root to the leaf
    [x] reaches. *)
Definition spec_loss (trees : list tree) (target_sign : Z) (x : vec) : option Q :=
  option_map (fun m => - inject_Z target_sign * m)
    (np_mean (map (fun model => path_edges model x) trees)).

(** ** Leaf paths *)

Inductive direction := GoLeft | GoRight.

(** One step of a root-to-leaf path: the feature tested, the threshold and
    the side taken. *)
Record step := mkStep {
  step_feature : nat;
  step_threshold : Q;
  step_direction : direction
}.

Definition path := list step.

(** Modelled from the spec: [get_leafs_from_tree] of [ceml/sklearn/tree.py],
    which is not among the sources.  It walks the tree from the root, records
    (feature, threshold, direction) at each internal node and emits one path
    per leaf, left subtree first. *)
Fixpoint get_leafs_from_tree (t : tree) : list path :=
  match t with
  | Leaf => [[]]
  | Node f th l r =>
      map (cons (mkStep f th GoLeft)) (get_leafs_from_tree l)
      ++ map (cons (mkStep f th GoRight)) (get_leafs_from_tree r)
  end.

(** ** Objects of the surrounding package *)

(** A cost function object once built: callable on an input vector. *)
Definition regularizer := vec -> Q.

(** The [regularization] argument as Python passes it: [None], a string, a
    callable object, or some other object (a number, say) that is neither a
    string nor callable. *)
Inductive regularization_arg :=
| RegNone
| RegName (desc : string)
| RegCallable (f : regularizer)
| RegNumber (v : Q).

(** [isinstance(regularization, str)] and [callable(regularization)]. *)
Definition is_str (r : regularization_arg) : bool :=
  match r with RegName _ => true | _ => false end.

Definition callable (r : regularization_arg) : bool :=
  match r with RegCallable _ => true | _ => false end.

(** The [C] argument: a float or a list of floats. *)
Inductive C_arg :=
| C_float (c : Q)
| C_list (cs : list Q).

(** [RegularizedCost(penalize_input, penalize_output, C)]. *)
Record RegularizedCost := mkRegularizedCost {
  penalize_input : regularizer;
  penalize_output : IsolationForestCost;
  C : Q
}.

(** The fitted [sklearn.ensemble.IsolationForest]: its member trees and its
    [predict], which answers -1 or +1. *)
Record sklearn_IsolationForest := mkSklearnIsolationForest {
  estimators_ : list tree;
  sklearn_predict : vec -> Z
}.

(** What a caller may hand in as [model]. *)
Inductive model_arg :=
| AnIsolationForest (m : sklearn_IsolationForest)
| AnotherModel.

(** The wrapper class [IsolationForest]. *)
Record IsolationForest := mkIsolationForest {
  wrapped_model : sklearn_IsolationForest
}.

(** [IsolationForest.__init__]: refuses anything but an isolation forest. *)
Definition IsolationForest_init (model : model_arg) : exn + IsolationForest :=
  match model with
  | AnIsolationForest m => inr (mkIsolationForest m)
  | AnotherModel => inl TypeError
  end.

(** [IsolationForest.predict]. *)
Definition predict (self : IsolationForest) (x : vec) : Z :=
  sklearn_predict (wrapped_model self) x.

(** [IsolationForest.get_loss]: [epsilon] keeps its default, [0]. *)
Definition get_loss (self : IsolationForest) (y_target : Z)
    (input_wrapper : option input_wrapper_t) : IsolationForestCost :=
  IsolationForestCost_init (estimators_ (wrapped_model self)) y_target input_wrapper 0.

(** The explainer object: the parent class keeps the model it was given in
    [self.model] and the rebuilt one in [self.mymodel]. *)
Record IsolationForestCounterfactual := mkIsolationForestCounterfactual {
  model : sklearn_IsolationForest;
  mymodel : IsolationForest
}.

(** [rebuild_model]. *)
Definition rebuild_model (model : model_arg) : exn + IsolationForest :=
  match model with
  | AnIsolationForest m => IsolationForest_init (AnIsolationForest m)
  | AnotherModel => inl TypeError
  end.

(** [IsolationForestCounterfactual.__init__]; the parent constructor stores
    [model] and the result of [rebuild_model]. *)
Definition IsolationForestCounterfactual_init (model : model_arg)
    : exn + IsolationForestCounterfactual :=
  match model with
  | AnIsolationForest m =>
      match rebuild_model model with
      | inr my => inr (mkIsolationForestCounterfactual m my)
      | inl e => inl e
      end
  | AnotherModel => inl TypeError
  end.

(** The three values of a found counterfactual, as a dictionary with the keys
    [x_cf], [y_cf] and [delta], or as a triple. *)
Inductive result :=
| ResultDict (x_cf : vec) (y_cf : Z) (delta : vec)
| ResultTriple (x_cf : vec) (y_cf : Z) (delta : vec).

Definition result_y_cf (r : result) : Z :=
  match r with ResultDict _ y _ | ResultTriple _ y _ => y end.

Inductive outcome :=
| Return (r : result)
| Raise (e : exn).

(** What a run leaves behind besides its outcome: the warning of
    [warn_if_already_done] and, for each call of the optimizer, the starting
    point and the strength it was called with, together with the prediction
    it led to or the exception it raised. *)
Inductive event :=
| Warned
| Attempt (x0 : vec) (c : Q) (y_cf : Z)
| Crashed (x0 : vec) (c : Q) (e : exn).

(** The functions this module imports from the rest of the package and
    inherits from [SklearnCounterfactual], none of them among the sources.
    Every definition below is parametric in them.  The three that are called
    inside the search loop may raise; their exception leaves the loop as it
    is, since the loop catches nothing. *)
Class Collaborators := {
  (* ceml.sklearn.tree *)
  adjustment : Type;
  score_adjustments : vec -> list nat -> list path -> regularizer
                      -> list (Q * path * adjustment);
  apply_adjustment : vec -> adjustment -> vec;
  (* ceml.sklearn.utils *)
  desc_to_regcost : string -> vec -> option input_wrapper_t -> exn + regularizer;
  build_regularization_loss : regularizer -> vec -> exn + regularizer;
  (* ceml.sklearn.counterfactual.SklearnCounterfactual *)
  optimizer_t : Type;
  pred_t : Type;
  grad_mask_t : Type;
  wrap_input : IsolationForestCounterfactual -> option (list nat) -> vec -> optimizer_t
               -> exn + (option input_wrapper_t * vec * pred_t * grad_mask_t);
  compute_counterfactual_ex :
    IsolationForestCounterfactual -> vec -> RegularizedCost -> vec
    -> option (vec -> vec) -> optimizer_t -> option input_wrapper_t -> bool
    -> exn + (vec * Z * vec)
}.

(** ** The per-tree candidate generator *)

(** [len(p)] paired with [p]. *)
Definition with_lengths (paths : list path) : list (nat * path) :=
  map (fun p => (length p, p)) paths.

(** The target length [t]: the shortest length when [y_target == -1], the
    longest otherwise. *)
Definition target_length (y_target : Z) (length_paths : list (nat * path)) : option nat :=
  if (y_target =? -1)%Z
  then np_min (map fst length_paths)
  else np_max (map fst length_paths).

(** [np.abs(z[0] - t) < 2]. *)
Definition near_target (t : nat) (z : nat * path) : bool :=
  (Z.abs (Z.of_nat (fst z) - Z.of_nat t) <? 2)%Z.

(** The paths handed to [score_adjustments]: the leaf paths of the tree that
    pass the length filter. *)
Definition candidate_paths (model : tree) (y_target : Z) : exn + list path :=
  let paths := get_leafs_from_tree model in
  let length_paths := with_lengths paths in
  match target_length y_target length_paths with
  | None => inl ValueError
  | Some t => inr (map snd (filter (near_target t) length_paths))
  end.

(** The nested [used_protected_attributes]. *)
Definition used_protected_attributes (x cf : vec) (features_whitelist : list nat) : bool :=
  let d := vec_sub x cf in
  existsb (fun i => negb (existsb (Nat.eqb i) features_whitelist)
                    && negb (Qeq_bool (nth i d 0) 0))
          (seq 0 (length d)).

(** The last step of the generator: nothing is dropped without a whitelist. *)
Definition drop_protected (x : vec) (features_whitelist : option (list nat))
    (counterfactuals : list vec) : list vec :=
  match features_whitelist with
  | None => counterfactuals
  | Some wl => filter (fun z => negb (used_protected_attributes x z wl)) counterfactuals
  end.

(** The candidates of one tree before the whitelist is applied. *)
Definition adjusted_inputs `{Collaborators} (model : tree) (x : vec)
    (paths : list path) (regularization : regularizer) : list vec :=
  let path_of_x := indices (decision_path model x) in
  let counterfactuals := score_adjustments x path_of_x paths regularization in
  map (fun cf => apply_adjustment x (snd cf)) counterfactuals.

(** [__compute_counterfactuals_isolationtree]. *)
Definition compute_counterfactuals_isolationtree `{Collaborators}
    (model : tree) (x : vec) (y_target : Z)
    (features_whitelist : option (list nat)) (regularization : regularizer)
    : exn + list vec :=
  match candidate_paths model y_target with
  | inl e => inl e
  | inr paths =>
      inr (drop_protected x features_whitelist (adjusted_inputs model x paths regularization))
  end.

(** [__compute_initial_values]: [x], then the candidates of every tree in
    the order of [estimators_]. *)
Fixpoint extend_with_trees `{Collaborators} (trees : list tree) (x : vec) (y_target : Z)
    (features_whitelist : option (list nat)) (regularization : regularizer)
    (result : list vec) : exn + list vec :=
  match trees with
  | [] => inr result
  | m :: trees' =>
      match compute_counterfactuals_isolationtree m x y_target features_whitelist regularization with
      | inl e => inl e
      | inr cfs =>
          extend_with_trees trees' x y_target features_whitelist regularization (result ++ cfs)
      end
  end.

Definition compute_initial_values `{Collaborators} (self : IsolationForestCounterfactual)
    (x : vec) (y_target : Z) (features_whitelist : option (list nat))
    (regularization : regularizer) : exn + list vec :=
  extend_with_trees (estimators_ (model self)) x y_target features_whitelist regularization [x].

(** ** The search loop *)

(** [build_loss]: the regularized cost and no gradient. *)
Definition build_loss `{Collaborators} (self : IsolationForestCounterfactual)
    (regularization : regularizer) (x_orig : vec) (y_target : Z)
    (pred : pred_t) (grad_mask : grad_mask_t) (C : Q)
    (input_wrapper : option input_wrapper_t)
    : exn + (RegularizedCost * option (vec -> vec)) :=
  match build_regularization_loss regularization x_orig with
  | inl e => inl e
  | inr regularization =>
      let loss := mkRegularizedCost regularization
                    (get_loss (mymodel self) y_target input_wrapper) C in
      inr (loss, None)
  end.

(** The first lines of [compute_counterfactual]: a string is resolved by
    [desc_to_regcost], anything else has to be callable. *)
Definition resolve_regularization `{Collaborators} (regularization : regularization_arg)
    (x : vec) : exn + regularizer :=
  match regularization with
  | RegName desc => desc_to_regcost desc x None
  | RegCallable f => inr f
  | RegNone => inl TypeError
  | RegNumber _ => inl TypeError
  end.

(** [done if done is not None else ... lambda y: y == y_target]; the target
    of an isolation forest is a number, so the branch for a callable
    [y_target] is not taken. *)
Definition resolve_done (done : option (Z -> bool)) (y_target : Z) : Z -> bool :=
  match done with
  | Some d => d
  | None => fun y => (y =? y_target)%Z
  end.

(** Modelled from the spec: [warn_if_already_done] of the parent class
    [SklearnCounterfactual], not among the sources.  It warns when the
    prediction of [x] is already accepted and changes nothing else. *)
Definition warn_if_already_done (self : IsolationForestCounterfactual) (x : vec)
    (done : Z -> bool) : list event :=
  if done (sklearn_predict (model self) x) then [Warned] else [].

(** [if not type(C) == list: C = [C]]. *)
Definition normalize_C (C : C_arg) : list Q :=
  match C with
  | C_float c => [c]
  | C_list cs => cs
  end.

(** How the two loops end: at the [return] of an accepted triple, by running
    out of values, or with the exception of a collaborator. *)
Inductive search_end :=
| Accepted (r : vec * Z * vec)
| Exhausted
| Propagated (e : exn).

(** The inner loop [for c in C] at one starting point, [wrapped] being what
    [wrap_input] returned for it. *)
Fixpoint for_c_in_C `{Collaborators} (self : IsolationForestCounterfactual)
    (x : vec) (y_target : Z) (regularization : regularizer) (optimizer : optimizer_t)
    (done : Z -> bool) (x0 : vec)
    (wrapped : option input_wrapper_t * vec * pred_t * grad_mask_t)
    (C : list Q) : search_end * list event :=
  match C with
  | [] => (Exhausted, [])
  | c :: C' =>
      let '(input_wrapper, x_orig, pred, grad_mask) := wrapped in
      match build_loss self regularization x_orig y_target pred grad_mask c input_wrapper with
      | inl e => (Propagated e, [])
      | inr (loss, loss_grad) =>
          match compute_counterfactual_ex self x loss x_orig loss_grad optimizer
                  input_wrapper false with
          | inl e => (Propagated e, [Crashed x0 c e])
          | inr (x_cf, y_cf, delta) =>
              if done y_cf
              then (Accepted (x_cf, y_cf, delta), [Attempt x0 c y_cf])
              else
                let '(r, log) :=
                  for_c_in_C self x y_target regularization optimizer done x0 wrapped C' in
                (r, Attempt x0 c y_cf :: log)
          end
      end
  end.

(** The outer loop [for x0 in x_start]: [wrap_input] is called once per
    starting point, before the inner loop. *)
Fixpoint for_x0_in_x_start `{Collaborators} (self : IsolationForestCounterfactual)
    (x : vec) (y_target : Z) (features_whitelist : option (list nat))
    (regularization : regularizer) (optimizer : optimizer_t) (done : Z -> bool)
    (C : list Q) (x_start : list vec) : search_end * list event :=
  match x_start with
  | [] => (Exhausted, [])
  | x0 :: x_start' =>
      match wrap_input self features_whitelist x0 optimizer with
      | inl e => (Propagated e, [])
      | inr wrapped =>
          match for_c_in_C self x y_target regularization optimizer done x0 wrapped C with
          | (Exhausted, log) =>
              let '(r, log') :=
                for_x0_in_x_start self x y_target features_whitelist regularization
                  optimizer done C x_start' in
              (r, log ++ log')
          | (r, log) => (r, log)
          end
      end
  end.

(** [__build_result_dict] of the parent class or the plain triple. *)
Definition build_result (return_as_dict : bool) (r : vec * Z * vec) : result :=
  let '(x_cf, y_cf, delta) := r in
  if return_as_dict then ResultDict x_cf y_cf delta else ResultTriple x_cf y_cf delta.

(** [compute_counterfactual]: the outcome and the events of the run. *)
Definition compute_counterfactual `{Collaborators} (self : IsolationForestCounterfactual)
    (x : vec) (y_target : Z) (features_whitelist : option (list nat))
    (regularization : regularization_arg) (C : C_arg) (optimizer : optimizer_t)
    (return_as_dict : bool) (done : option (Z -> bool)) : outcome * list event :=
  match resolve_regularization regularization x with
  | inl e => (Raise e, [])
  | inr regularization =>
      match compute_initial_values self x y_target features_whitelist regularization with
      | inl e => (Raise e, [])
      | inr x_start =>
          let done := resolve_done done y_target in
          let warned := warn_if_already_done self x done in
          let C := normalize_C C in
          match for_x0_in_x_start self x y_target features_whitelist regularization
                  optimizer done C x_start with
          | (Accepted r, log) => (Return (build_result return_as_dict r), warned ++ log)
          | (Exhausted, log) => (Raise NoCounterfactualFound, warned ++ log)
          | (Propagated e, log) => (Raise e, warned ++ log)
          end
      end
  end.

(** The parameters of [isolationforest_generate_counterfactual], in order. *)
Definition isolationforest_generate_counterfactual_params : list string :=
  ["model"; "x"; "y_target"; "features_whitelist"; "regularization"; "C";
   "optimizer"; "return_as_dict"]%string.

(** The parameters of the method [compute_counterfactual], [self] apart. *)
Definition compute_counterfactual_params : list string :=
  ["x"; "y_target"; "features_whitelist"; "regularization"; "C"; "optimizer";
   "return_as_dict"; "done"]%string.

(** [isolationforest_generate_counterfactual]: builds the explainer and calls
    [compute_counterfactual] with seven positional arguments, so [done] keeps
    its default [None]. *)
Definition isolationforest_generate_counterfactual `{Collaborators} (model : model_arg)
    (x : vec) (y_target : Z) (features_whitelist : option (list nat))
    (regularization : regularization_arg) (C : C_arg) (optimizer : optimizer_t)
    (return_as_dict : bool) : outcome * list event :=
  match IsolationForestCounterfactual_init model with
  | inl e => (Raise e, [])
  | inr cf =>
      compute_counterfactual cf x y_target features_whitelist regularization C optimizer
        return_as_dict None
  end.

(** The attempts of a run, in the order they were made. *)
Fixpoint attempts (log : list event) : list (vec * Q) :=
  match log with
  | [] => []
  | Warned :: log' => attempts log'
  | Attempt x0 c _ :: log' => (x0, c) :: attempts log'
  | Crashed x0 c _ :: log' => (x0, c) :: attempts log'
  end.

(** The cross product of starting points and strengths, starting point by
    starting point. *)
Definition cross_product (x_start : list vec) (C : list Q) : list (vec * Q) :=
  flat_map (fun x0 => map (fun c => (x0, c)) C) x_start.

(** The predictions the attempts of a run led to. *)
Fixpoint predictions (log : list event) : list Z :=
  match log with
  | [] => []
  | Warned :: log' => predictions log'
  | Attempt _ _ y_cf :: log' => y_cf :: predictions log'
  | Crashed _ _ _ :: log' => predictions log'
  end.



(** A candidate differs from [x] only at whitelisted indices. *)
Definition only_whitelisted_changes (x cf : vec) (features_whitelist : list nat) : Prop :=
  forall i, (i < length x)%nat -> ~ In i features_whitelist -> nth i cf 0 == nth i x 0.

(** The outcome of [compute_counterfactual] for an end of the loops. *)
Definition search_outcome (return_as_dict : bool) (ended : search_end) : outcome :=
  match ended with
  | Accepted r => Return (build_result return_as_dict r)
  | Exhausted => Raise NoCounterfactualFound
  | Propagated e => Raise e
  end.

(** The body of the loops at one starting point and one strength: the input
    is wrapped, the loss built and the optimizer run. *)
Definition attempt_at `{Collaborators} (self : IsolationForestCounterfactual)
    (x : vec) (y_target : Z) (features_whitelist : option (list nat))
    (regularization : regularizer) (optimizer : optimizer_t) (x0 : vec) (c : Q)
    : exn + (vec * Z * vec) :=
  match wrap_input self features_whitelist x0 optimizer with
  | inl e => inl e
  | inr (input_wrapper, x_orig, pred, grad_mask) =>
      match build_loss self regularization x_orig y_target pred grad_mask c input_wrapper with
      | inl e => inl e
      | inr (loss, loss_grad) =>
          compute_counterfactual_ex self x loss x_orig loss_grad optimizer input_wrapper false
      end
  end.

(** An event of the log agrees with the body of the loops. *)
Definition event_matches `{Collaborators} (self : IsolationForestCounterfactual)
    (x : vec) (y_target : Z) (features_whitelist : option (list nat))
    (regularization : regularizer) (optimizer : optimizer_t) (ev : event) : Prop :=
  match ev with
  | Warned => True
  | Attempt x0 c y_cf =>
      exists x_cf delta,
        attempt_at self x y_target features_whitelist regularization optimizer x0 c
        = inr (x_cf, y_cf, delta)
  | Crashed x0 c e =>
      attempt_at self x y_target features_whitelist regularization optimizer x0 c = inl e
  end.

(** Every prediction of the log was rejected. *)
Definition all_rejected (done : Z -> bool) (log : list event) : Prop :=
  Forall (fun y_cf => done y_cf = false) (predictions log).

(** The exception [e] is the one a collaborator raised at one of the starting
    points: [wrap_input] on the starting point, or the body at one of the
    strengths. *)
Definition raised_in `{Collaborators} (self : IsolationForestCounterfactual)
    (x : vec) (y_target : Z) (features_whitelist : option (list nat))
    (regularization : regularizer) (optimizer : optimizer_t)
    (x_start : list vec) (C : list Q) (e : exn) : Prop :=
  exists x0,
    In x0 x_start
    /\ (wrap_input self features_whitelist x0 optimizer = inl e
        \/ exists c,
             In c C
             /\ attempt_at self x y_target features_whitelist regularization optimizer x0 c
                = inl e).

(** What a finished loop tells.  The attempts are an initial part of
    [expected] and every event agrees with the body of the loops.  The loop
    ends at the first accepted attempt, which is the last event; or, with
    nothing accepted, with every pair tried; or, with nothing accepted so far,
    with the exception of a collaborator. *)
Definition loop_post `{Collaborators} (self : IsolationForestCounterfactual)
    (x : vec) (y_target : Z) (features_whitelist : option (list nat))
    (regularization : regularizer) (optimizer : optimizer_t) (done : Z -> bool)
    (x_start : list vec) (C : list Q) (expected : list (vec * Q))
    (run : search_end * list event) : Prop :=
  (exists rest, expected = attempts (snd run) ++ rest)
  /\ Forall (event_matches self x y_target features_whitelist regularization optimizer)
            (snd run)
  /\ match fst run with
     | Accepted r =>
         done (snd (fst r)) = true
         /\ exists x0 c log,
              snd run = log ++ [Attempt x0 c (snd (fst r))]
              /\ attempt_at self x y_target features_whitelist regularization optimizer x0 c
                 = inr r
              /\ all_rejected done log
     | Exhausted =>
         attempts (snd run) = expected
         /\ all_rejected done (snd run)
         /\ length (predictions (snd run)) = length expected
     | Propagated e =>
         all_rejected done (snd run)
         /\ raised_in self x y_target features_whitelist regularization optimizer
              x_start C e
     end.


(** ** A reference set of collaborators

    One implementation of the imported functions, used to run the module on
    concrete inputs. *)

(** [x_new[i] = v] on a copy. *)
Fixpoint set_coord (i : nat) (v : Q) (x : vec) : vec :=
  match x, i with
  | [], _ => []
  | _ :: x', O => v :: x'
  | a :: x', S i' => a :: set_coord i' v x'
  end.

(** Modelled from the spec: [apply_adjustment] of [ceml/sklearn/tree.py], not
    among the sources: the adjusted coordinates are overwritten on a copy of
    [x], a later entry for a feature winning over an earlier one. *)
Definition ref_apply_adjustment (x : vec) (adj : list (nat * Q)) : vec :=
  fold_left (fun acc iv => set_coord (fst iv) (snd iv) acc) adj x.

(** The small amount by which an adjusted feature passes a threshold. *)
Definition ref_eps : Q := 1 # 100000.

(** Modelled from the spec: the change one step of a path asks for, part of
    [score_adjustments] in [ceml/sklearn/tree.py], not among the sources.
    None when [x] already takes the side of the step; else the feature is
    moved just past the threshold, by [ref_eps], in the direction of the
    step. *)
Definition ref_step_adjustment (x : vec) (s : step) : list (nat * Q) :=
  match step_direction s with
  | GoLeft =>
      if goes_left x (step_feature s) (step_threshold s) then []
      else [(step_feature s, step_threshold s - ref_eps)]
  | GoRight =>
      if goes_left x (step_feature s) (step_threshold s)
      then [(step_feature s, step_threshold s + ref_eps)]
      else []
  end.

Definition ref_compute_adjustment (x : vec) (p : path) : list (nat * Q) :=
  flat_map (ref_step_adjustment x) p.

(** Stable insertion by ascending cost. *)
Fixpoint ref_insert (a : Q * path * list (nat * Q)) (l : list (Q * path * list (nat * Q)))
    : list (Q * path * list (nat * Q)) :=
  match l with
  | [] => [a]
  | b :: l' =>
      if Qle_bool (fst (fst a)) (fst (fst b)) then a :: l else b :: ref_insert a l'
  end.

(** Modelled from the spec: [score_adjustments] of [ceml/sklearn/tree.py],
    not among the sources: one adjustment per candidate path, its cost given
    by the regularizer, the list sorted by ascending cost with ties in the
    order of the paths. *)
Definition ref_score_adjustments (x : vec) (path_of_x : list nat) (paths : list path)
    (regularization : regularizer) : list (Q * path * list (nat * Q)) :=
  fold_right ref_insert []
    (map (fun p =>
            let adj := ref_compute_adjustment x p in
            (regularization (ref_apply_adjustment x adj), p, adj))
         paths).

(** Modelled from the spec: the penalties it names for [l1] and [l2], the
    absolute and the squared deviation from [x]; their classes live in
    [ceml/costfunctions], not among the sources. *)
Definition L1Cost (x : vec) : regularizer :=
  fun z => Qsum (map Qabs (vec_sub z x)).

Definition L2Cost (x : vec) : regularizer :=
  fun z => Qsum (map (fun d => d * d) (vec_sub z x)).

(** Modelled from the spec: [desc_to_regcost] of [ceml/sklearn/utils.py], not
    among the sources: [l1] and [l2] are the recognized names. *)
Definition ref_desc_to_regcost (desc : string) (x : vec)
    (input_wrapper : option input_wrapper_t) : exn + regularizer :=
  if String.eqb desc "l1" then inr (L1Cost x)
  else if String.eqb desc "l2" then inr (L2Cost x)
  else inl TypeError.

(** Modelled from the spec: the input wrapper of [ceml/optim], not among the
    sources: the whitelisted coordinates of [x0] and their way back into
    [x0]. *)
Definition ref_extract (wl : list nat) (x0 : vec) : vec :=
  map (fun i => nth i x0 0) wl.

Definition ref_complete (wl : list nat) (x0 : vec) : input_wrapper_t :=
  fun z => fold_left (fun acc iv => set_coord (fst iv) (snd iv) acc) (combine wl z) x0.

(** Modelled from the spec: [wrap_input] of the parent class
    [SklearnCounterfactual], not among the sources.  Without a whitelist the
    starting point is optimized as it is; with one, its whitelisted
    coordinates are, and the wrapper puts them back. *)
Definition ref_wrap_input (self : IsolationForestCounterfactual)
    (features_whitelist : option (list nat)) (x0 : vec)
    (optimizer : (vec -> option Q) -> vec -> exn + vec)
    : exn + (option input_wrapper_t * vec * Z * unit) :=
  match features_whitelist with
  | None => inr (None, x0, sklearn_predict (model self) x0, tt)
  | Some wl =>
      inr (Some (ref_complete wl x0), ref_extract wl x0,
           sklearn_predict (model self) x0, tt)
  end.

(** Modelled from the spec: the objective of section 4.5, the regularization
    term plus [C] times the loss. *)
Definition ref_objective (loss : RegularizedCost) (input_wrapper : option input_wrapper_t)
    (z : vec) : option Q :=
  let z' := match input_wrapper with Some w => w z | None => z end in
  option_map (fun l => penalize_input loss z' + C loss * l)
             (score_impl (penalize_output loss) z').

(** Modelled from the spec: [compute_counterfactual_ex] of the parent class
    [SklearnCounterfactual], not among the sources.  The optimizer is a
    minimizer handed in by the caller, and its exception is passed on; the
    result is the point it returns, the prediction there and, as in section
    4.5, [delta = x_cf - x]. *)
Definition ref_compute_counterfactual_ex (self : IsolationForestCounterfactual)
    (x : vec) (loss : RegularizedCost) (x_orig : vec) (loss_grad : option (vec -> vec))
    (optimizer : (vec -> option Q) -> vec -> exn + vec)
    (input_wrapper : option input_wrapper_t) (return_as_dict : bool)
    : exn + (vec * Z * vec) :=
  match optimizer (ref_objective loss input_wrapper) x_orig with
  | inl e => inl e
  | inr x_cf =>
      let x_cf := match input_wrapper with Some w => w x_cf | None => x_cf end in
      inr (x_cf, sklearn_predict (model self) x_cf, vec_sub x_cf x)
  end.

Definition reference : Collaborators := {|
  adjustment := list (nat * Q);
  score_adjustments := ref_score_adjustments;
  apply_adjustment := ref_apply_adjustment;
  desc_to_regcost := ref_desc_to_regcost;
  build_regularization_loss := fun regularization _ => inr regularization;
  optimizer_t := (vec -> option Q) -> vec -> exn + vec;
  pred_t := Z;
  grad_mask_t := unit;
  wrap_input := ref_wrap_input;
  compute_counterfactual_ex := ref_compute_counterfactual_ex
|}.

(** ** Concrete inputs *)

(** A minimizer that returns its starting point. *)
Definition stay_put : (vec -> option Q) -> vec -> exn + vec := fun _ x0 => inr x0.

(** A minimizer that raises. *)
Definition broken_minimizer : (vec -> option Q) -> vec -> exn + vec :=
  fun _ _ => inl ValueError.

(** One split on feature 0 at threshold 0. *)
Definition stump : tree := Node 0 0 Leaf Leaf.

(** Leaves at depths 1, 3, 3 and 2. *)
Definition uneven : tree :=
  Node 0 0 Leaf (Node 1 0 (Node 2 0 Leaf Leaf) Leaf).

(** A forest of one stump whose [predict] answers -1 everywhere. *)
Definition all_outliers : sklearn_IsolationForest :=
  mkSklearnIsolationForest [stump] (fun _ => (-1)%Z).

Definition explainer : IsolationForestCounterfactual :=
  mkIsolationForestCounterfactual all_outliers (mkIsolationForest all_outliers).

(** ** Measures of a tree *)

(** The depth of the deepest leaf. *)
Fixpoint height (t : tree) : nat :=
  match t with
  | Leaf => 0
  | Node _ _ l r => S (Nat.max (height l) (height r))
  end.

(** A forest of one stump that calls the left side inliers and the right
    side outliers. *)
Definition left_is_inlier : sklearn_IsolationForest :=
  mkSklearnIsolationForest [stump]
    (fun z => if goes_left z 0 0 then 1%Z else (-1)%Z).

Definition left_explainer : IsolationForestCounterfactual :=
  mkIsolationForestCounterfactual left_is_inlier (mkIsolationForest left_is_inlier).

(** Closes [~ In s l] for a string and a list of string literals. *)
Ltac not_among :=
  let Hin := fresh "Hin" in
  intros Hin; simpl in Hin;
  repeat (destruct Hin as [Hin|Hin]; [discriminate|]); exact Hin.

(** * Properties *)

(** ** Decision paths and the loss *)

Lemma list_sum_repeat_0 (n : nat) : list_sum (repeat 0%nat n) = 0%nat.
Proof. induction n as [|n IH]; simpl; auto. Qed.

Lemma decision_path_length (t : tree) (x : vec) :
  length (decision_path t x) = node_count t.
Proof.
  induction t as [|f th l IHl r IHr]; simpl; auto.
  destruct (goes_left x f th); simpl; rewrite length_app, repeat_length; lia.
Qed.

(** The indicator row of [x] sums to the number of nodes on its way: one more
    than the number of edges. *)
Lemma decision_path_sum (t : tree) (x : vec) :
  indicator_sum (decision_path t x) = S (path_edges t x).
Proof.
  unfold indicator_sum.
  induction t as [|f th l IHl r IHr]; simpl; auto.
  destruct (goes_left x f th); simpl;
    rewrite list_sum_app, list_sum_repeat_0; lia.
Qed.

Lemma list_sum_map_S {A} (f : A -> nat) (l : list A) :
  list_sum (map (fun a => S (f a)) l) = (length l + list_sum (map f l))%nat.
Proof. induction l as [|a l IH]; simpl; auto. rewrite IH. lia. Qed.

(** The mean of the node counts is the mean of the edge counts plus one. *)
Lemma np_mean_nodes (trees : list tree) (x : vec) (m : Q) :
  np_mean (map (fun t => path_edges t x) trees) = Some m ->
  exists m', np_mean (map (fun t => indicator_sum (decision_path t x)) trees) = Some m'
             /\ m' == m + 1.
Proof.
  destruct trees as [|t trees]; [discriminate|].
  intros Hm.
  rewrite (map_ext _ (fun t => S (path_edges t x)) (fun t => decision_path_sum t x)).
  remember (t :: trees) as ts eqn:Hts.
  assert (Hlen : (0 < length ts)%nat) by (subst ts; simpl; lia).
  assert (Hmean : forall f : tree -> nat,
             np_mean (map f ts)
             = Some (inject_Z (Z.of_nat (list_sum (map f ts)))
                     / inject_Z (Z.of_nat (length ts)))).
  { intros f. subst ts. simpl. rewrite length_map. reflexivity. }
  rewrite Hmean in Hm. injection Hm as Hm.
  eexists. split; [apply Hmean|].
  rewrite list_sum_map_S, <- Hm, Nat2Z.inj_add, inject_Z_plus.
  field. intros H0.
  assert (Z.of_nat (length ts) = 0%Z) as Hz.
  { unfold Qeq in H0. simpl in H0. lia. }
  lia.
Qed.

(** C7, as the code has it: for an ensemble with at least one tree the loss is
    minus the target label times the mean number of nodes on the decision
    paths of [x], root and leaf counted, that is the mean number of edges
    plus one. *)
Theorem score_impl_counts_nodes (t : tree) (trees : list tree) (y : Z)
    (iw : option input_wrapper_t) (eps : Q) (x : vec) :
  exists loss mean_edges,
    score_impl (IsolationForestCost_init (t :: trees) y iw eps) x = Some loss
    /\ np_mean (map (fun m => path_edges m x) (t :: trees)) = Some mean_edges
    /\ loss == - inject_Z y * (mean_edges + 1).
Proof.
  destruct (np_mean (map (fun m => path_edges m x) (t :: trees))) as [me|] eqn:Hme;
    [|discriminate].
  destruct (np_mean_nodes _ _ _ Hme) as [m' [Hm' Heq]].
  exists ((-1) * inject_Z y * m'), me. repeat split.
  - unfold score_impl, IsolationForestCost_init. cbn [models y_target].
    rewrite Hm'. reflexivity.
  - rewrite Heq. ring.
Qed.

(** C7, counterexample: the input [[1]] crosses one edge of the stump, so the
    loss of the specification for the target 1 is -1; the code counts the
    root and the leaf and answers -2. *)
Lemma score_impl_is_not_spec_loss :
  exists loss claimed,
    score_impl (IsolationForestCost_init [stump] 1 None 0) [1] = Some loss
    /\ spec_loss [stump] 1 [1] = Some claimed
    /\ path_edges stump [1] = 1%nat
    /\ indicator_sum (decision_path stump [1]) = 2%nat
    /\ ~ loss == claimed.
Proof.
  eexists. eexists. split; [reflexivity|]. split; [reflexivity|].
  split; [reflexivity|]. split; [reflexivity|].
  intros H. vm_compute in H. discriminate.
Qed.

(** C10: [epsilon] does not reach the object, so two losses that differ in it
    only are the same object and score every input alike. *)
Theorem epsilon_has_no_effect (trees : list tree) (y : Z)
    (iw : option input_wrapper_t) (x : vec) (e1 e2 : Q) :
  IsolationForestCost_init trees y iw e1 = IsolationForestCost_init trees y iw e2
  /\ score_impl (IsolationForestCost_init trees y iw e1) x
     = score_impl (IsolationForestCost_init trees y iw e2) x.
Proof. split; reflexivity. Qed.

(** ** Leaf paths and the target length *)

Lemma get_leafs_from_tree_nonempty (t : tree) : get_leafs_from_tree t <> [].
Proof.
  induction t as [|f th l IHl r IHr]; simpl; [discriminate|].
  destruct (get_leafs_from_tree l); [contradiction|discriminate].
Qed.

Lemma fold_left_min_spec (l : list nat) (a : nat) :
  In (fold_left Nat.min l a) (a :: l)
  /\ forall b, In b (a :: l) -> (fold_left Nat.min l a <= b)%nat.
Proof.
  revert a. induction l as [|c l IH]; intros a; simpl.
  - split; [auto|]. intros b [<-|[]]; lia.
  - destruct (IH (Nat.min a c)) as [Hin Hle]. split.
    + destruct Hin as [Hin|Hin]; [|auto].
      destruct (Nat.min_spec a c) as [[_ E]|[_ E]]; rewrite E in *; auto.
    + intros b Hb.
      assert (fold_left Nat.min l (Nat.min a c) <= Nat.min a c)%nat
        by (apply Hle; left; reflexivity).
      destruct Hb as [<-|[<-|Hb]]; [lia|lia|].
      apply Hle. right. exact Hb.
Qed.

Lemma fold_left_max_spec (l : list nat) (a : nat) :
  In (fold_left Nat.max l a) (a :: l)
  /\ forall b, In b (a :: l) -> (b <= fold_left Nat.max l a)%nat.
Proof.
  revert a. induction l as [|c l IH]; intros a; simpl.
  - split; [auto|]. intros b [<-|[]]; lia.
  - destruct (IH (Nat.max a c)) as [Hin Hle]. split.
    + destruct Hin as [Hin|Hin]; [|auto].
      destruct (Nat.max_spec a c) as [[_ E]|[_ E]]; rewrite E in *; auto.
    + intros b Hb.
      assert (Nat.max a c <= fold_left Nat.max l (Nat.max a c))%nat
        by (apply Hle; left; reflexivity).
      destruct Hb as [<-|[<-|Hb]]; [lia|lia|].
      apply Hle. right. exact Hb.
Qed.

Lemma map_fst_with_lengths (paths : list path) :
  map fst (with_lengths paths) = map (@length step) paths.
Proof. unfold with_lengths. rewrite map_map. reflexivity. Qed.

Lemma target_length_spec (model : tree) (y : Z) :
  let lengths := map (@length step) (get_leafs_from_tree model) in
  exists t,
    target_length y (with_lengths (get_leafs_from_tree model)) = Some t
    /\ In t lengths
    /\ (if (y =? -1)%Z
        then forall l, In l lengths -> (t <= l)%nat
        else forall l, In l lengths -> (l <= t)%nat)
    /\ candidate_paths model y
       = inr (map snd (filter (near_target t) (with_lengths (get_leafs_from_tree model)))).
Proof.
  intros lengths. unfold candidate_paths, target_length.
  rewrite map_fst_with_lengths. fold lengths.
  assert (Hne : lengths <> []).
  { unfold lengths. pose proof (get_leafs_from_tree_nonempty model) as H.
    destruct (get_leafs_from_tree model); [contradiction|discriminate]. }
  destruct lengths as [|a l]; [contradiction|].
  destruct (y =? -1)%Z; simpl.
  - destruct (fold_left_min_spec l a) as [Hin Hle].
    exists (fold_left Nat.min l a). repeat split; auto.
  - destruct (fold_left_max_spec l a) as [Hin Hle].
    exists (fold_left Nat.max l a). repeat split; auto.
Qed.

(** C6: the target length of a tree exists; it is the length of one of its
    leaf paths, the shortest when [y_target] is -1 and the longest otherwise,
    and it is the length the filter of the generator compares with. *)
Theorem target_length_is_min_or_max (model : tree) (y : Z) :
  let lengths := map (@length step) (get_leafs_from_tree model) in
  exists t,
    target_length y (with_lengths (get_leafs_from_tree model)) = Some t
    /\ In t lengths
    /\ (if (y =? -1)%Z
        then forall l, In l lengths -> (t <= l)%nat
        else forall l, In l lengths -> (l <= t)%nat)
    /\ candidate_paths model y
       = inr (map snd (filter (near_target t) (with_lengths (get_leafs_from_tree model)))).
Proof. exact (target_length_spec model y). Qed.

(** ** The length filter *)

(** The filter keeps a path when its length is at most one away from [t]. *)
Lemma near_target_iff (t : nat) (z : nat * path) :
  near_target t z = true <-> (Z.abs (Z.of_nat (fst z) - Z.of_nat t) <= 1)%Z.
Proof. unfold near_target. rewrite Z.ltb_lt. lia. Qed.

Lemma candidate_paths_spec (model : tree) (y : Z) :
  exists t paths,
    target_length y (with_lengths (get_leafs_from_tree model)) = Some t
    /\ candidate_paths model y = inr paths
    /\ forall p, In p paths <->
                 In p (get_leafs_from_tree model)
                 /\ (Z.abs (Z.of_nat (length p) - Z.of_nat t) <= 1)%Z.
Proof.
  destruct (target_length_spec model y) as [t [Ht [_ [_ Hc]]]].
  exists t. eexists. split; [exact Ht|]. split; [exact Hc|].
  intros p. unfold with_lengths. rewrite in_map_iff. split.
  - intros [[n q] [Hq Hin]]. simpl in Hq. subst q.
    apply filter_In in Hin. destruct Hin as [Hin Hnear].
    apply in_map_iff in Hin. destruct Hin as [p' [Hp' Hin]].
    injection Hp' as Hn Hp. subst p' n.
    split; [exact Hin|]. apply near_target_iff in Hnear. exact Hnear.
  - intros [Hin Hd]. exists (length p, p). split; [reflexivity|].
    apply filter_In. split.
    + apply in_map_iff. exists p. split; [reflexivity|exact Hin].
    + apply near_target_iff. exact Hd.
Qed.

(** C3, the code at a tree with leaves at depths 1, 3, 3 and 2 and the
    outlier target: the target length is 1, the leaf path of length 3 is at
    distance exactly 2 from it, and the generator does not keep it. *)
Theorem candidate_paths_drops_distance_two :
  let far := [mkStep 0 0 GoRight; mkStep 1 0 GoLeft; mkStep 2 0 GoLeft] in
  In far (get_leafs_from_tree uneven)
  /\ target_length (-1) (with_lengths (get_leafs_from_tree uneven)) = Some 1%nat
  /\ Z.abs (Z.of_nat (length far) - 1) = 2%Z
  /\ exists kept, candidate_paths uneven (-1) = inr kept
                  /\ map (@length step) kept = [1%nat; 2%nat]
                  /\ ~ In far kept.
Proof.
  cbv zeta. split; [simpl; auto|]. split; [reflexivity|]. split; [reflexivity|].
  eexists. split; [reflexivity|]. split; [reflexivity|].
  intros [H|[H|[]]]; discriminate.
Qed.

(** ** The whitelist *)

Lemma vec_sub_length (x cf : vec) :
  length cf = length x -> length (vec_sub x cf) = length x.
Proof.
  revert cf. induction x as [|a x IH]; intros [|b cf] Hlen; simpl in *;
    try discriminate; auto.
Qed.

Lemma vec_sub_nth (x cf : vec) (i : nat) :
  length cf = length x -> (i < length x)%nat ->
  nth i (vec_sub x cf) 0 = nth i x 0 - nth i cf 0.
Proof.
  revert cf i. induction x as [|a x IH]; intros [|b cf] i Hlen Hi; simpl in *;
    try discriminate; try lia.
  destruct i as [|i]; [reflexivity|]. apply IH; lia.
Qed.

Lemma existsb_eqb_In (i : nat) (l : list nat) :
  existsb (Nat.eqb i) l = true <-> In i l.
Proof.
  rewrite existsb_exists. split.
  - intros [j [Hin Hj]]. apply Nat.eqb_eq in Hj. subst j. exact Hin.
  - intros Hin. exists i. split; [exact Hin|apply Nat.eqb_refl].
Qed.

Lemma Qeq_bool_minus_0 (a b : Q) : Qeq_bool (a - b) 0 = true <-> b == a.
Proof.
  rewrite Qeq_bool_iff. split; intros H.
  - rewrite <- (Qplus_0_r b), <- H. ring.
  - rewrite H. ring.
Qed.

(** A candidate of the shape of [x] passes the check exactly when it keeps
    every coordinate outside the whitelist. *)
Lemma used_protected_attributes_false_iff (x cf : vec) (wl : list nat) :
  length cf = length x ->
  used_protected_attributes x cf wl = false <-> only_whitelisted_changes x cf wl.
Proof.
  intros Hlen. unfold used_protected_attributes, only_whitelisted_changes.
  rewrite (vec_sub_length x cf Hlen). split.
  - intros Hex i Hi Hnot.
    destruct (existsb (Nat.eqb i) wl) eqn:Hmem.
    { apply existsb_eqb_In in Hmem. contradiction. }
    destruct (Qeq_bool (nth i (vec_sub x cf) 0) 0) eqn:Hq.
    { rewrite (vec_sub_nth x cf i Hlen Hi) in Hq.
      apply Qeq_bool_minus_0 in Hq. exact Hq. }
    exfalso.
    assert (Ht : existsb
              (fun i => negb (existsb (Nat.eqb i) wl)
                        && negb (Qeq_bool (nth i (vec_sub x cf) 0) 0))
              (seq 0 (length x)) = true).
    { apply existsb_exists. exists i. split.
      - apply in_seq. lia.
      - rewrite Hmem, Hq. reflexivity. }
    rewrite Ht in Hex. discriminate.
  - intros Hall.
    destruct (existsb _ (seq 0 (length x))) eqn:Hex; [|reflexivity].
    apply existsb_exists in Hex. destruct Hex as [i [Hin Hi]].
    apply in_seq in Hin. apply andb_true_iff in Hi. destruct Hi as [Hmem Hq].
    apply negb_true_iff in Hmem. apply negb_true_iff in Hq.
    assert (Hnot : ~ In i wl).
    { intros Hin'. apply existsb_eqb_In in Hin'. rewrite Hin' in Hmem. discriminate. }
    assert (Hi : (i < length x)%nat) by lia.
    specialize (Hall i Hi Hnot).
    rewrite (vec_sub_nth x cf i Hlen Hi) in Hq.
    assert (Qeq_bool (nth i x 0 - nth i cf 0) 0 = true) as Ht
      by (apply Qeq_bool_minus_0; exact Hall).
    rewrite Ht in Hq. discriminate.
Qed.

(** C5: with a whitelist, and adjustments that keep the shape of [x], the
    generator returns exactly those adjusted inputs that agree with [x] at
    every index outside the whitelist: each returned candidate differs from
    [x] at whitelisted indices only, an unchanged coordinate never removes a
    candidate, and a candidate that changes a protected one is not returned. *)
Theorem whitelist_is_respected `{Collaborators} (model : tree) (x : vec) (y : Z)
    (wl : list nat) (reg : regularizer)
    (Hshape : forall a, length (apply_adjustment x a) = length x) :
  exists paths cfs,
    candidate_paths model y = inr paths
    /\ compute_counterfactuals_isolationtree model x y (Some wl) reg = inr cfs
    /\ (forall cf, In cf cfs -> only_whitelisted_changes x cf wl)
    /\ (forall cf, In cf cfs <->
                   In cf (adjusted_inputs model x paths reg)
                   /\ only_whitelisted_changes x cf wl).
Proof.
  destruct (candidate_paths_spec model y) as [t [paths [_ [Hc _]]]].
  exists paths. eexists. split; [exact Hc|].
  unfold compute_counterfactuals_isolationtree. rewrite Hc.
  split; [reflexivity|].
  assert (Hlen : forall cf, In cf (adjusted_inputs model x paths reg) ->
                            length cf = length x).
  { intros cf Hin. unfold adjusted_inputs in Hin. apply in_map_iff in Hin.
    destruct Hin as [a [<- _]]. apply Hshape. }
  assert (Hiff : forall cf,
             In cf (drop_protected x (Some wl) (adjusted_inputs model x paths reg)) <->
             In cf (adjusted_inputs model x paths reg)
             /\ only_whitelisted_changes x cf wl).
  { intros cf. unfold drop_protected. rewrite filter_In. split.
    - intros [Hin Hok]. split; [exact Hin|].
      apply negb_true_iff in Hok.
      apply (used_protected_attributes_false_iff x cf wl (Hlen cf Hin)). exact Hok.
    - intros [Hin Hok]. split; [exact Hin|].
      apply negb_true_iff.
      apply (used_protected_attributes_false_iff x cf wl (Hlen cf Hin)). exact Hok. }
  split; [|exact Hiff].
  intros cf Hin. apply Hiff in Hin. exact (proj2 Hin).
Qed.

Lemma set_coord_length (i : nat) (v : Q) (x : vec) :
  length (set_coord i v x) = length x.
Proof.
  revert i. induction x as [|a x IH]; intros [|i]; simpl; auto.
Qed.

Lemma ref_apply_adjustment_length (x : vec) (adj : list (nat * Q)) :
  length (ref_apply_adjustment x adj) = length x.
Proof.
  unfold ref_apply_adjustment. revert x.
  induction adj as [|iv adj IH]; intros x; simpl; [reflexivity|].
  rewrite IH. apply set_coord_length.
Qed.

Lemma whitelist_is_respected_witness :
  exists paths cfs,
    candidate_paths uneven 1 = inr paths
    /\ @compute_counterfactuals_isolationtree reference uneven [1; 1; 1] 1
         (Some [0%nat]) (L1Cost [1; 1; 1]) = inr cfs
    /\ (forall cf, In cf cfs -> only_whitelisted_changes [1; 1; 1] cf [0%nat])
    /\ (forall cf, In cf cfs <->
                   In cf (@adjusted_inputs reference uneven [1; 1; 1] paths (L1Cost [1; 1; 1]))
                   /\ only_whitelisted_changes [1; 1; 1] cf [0%nat]).
Proof.
  apply (@whitelist_is_respected reference uneven [1; 1; 1] 1 [0%nat] (L1Cost [1; 1; 1])).
  intros a. apply ref_apply_adjustment_length.
Defined.

(** ** The initial values *)

Lemma compute_counterfactuals_isolationtree_total `{Collaborators} (model : tree)
    (x : vec) (y : Z) (fw : option (list nat)) (reg : regularizer) :
  exists cfs, compute_counterfactuals_isolationtree model x y fw reg = inr cfs.
Proof.
  destruct (candidate_paths_spec model y) as [t [paths [_ [Hc _]]]].
  unfold compute_counterfactuals_isolationtree. rewrite Hc. eexists. reflexivity.
Qed.

Lemma extend_with_trees_prefix `{Collaborators} (trees : list tree) (x : vec) (y : Z)
    (fw : option (list nat)) (reg : regularizer) (result : list vec) :
  exists rest, extend_with_trees trees x y fw reg result = inr (result ++ rest).
Proof.
  revert result. induction trees as [|m trees IH]; intros result; simpl.
  - exists []. rewrite app_nil_r. reflexivity.
  - destruct (compute_counterfactuals_isolationtree_total m x y fw reg) as [cfs Hcfs].
    rewrite Hcfs. destruct (IH (result ++ cfs)) as [rest Hrest].
    exists (cfs ++ rest). rewrite Hrest, app_assoc. reflexivity.
Qed.

Lemma compute_initial_values_total `{Collaborators} (self : IsolationForestCounterfactual)
    (x : vec) (y : Z) (fw : option (list nat)) (reg : regularizer) :
  exists rest, compute_initial_values self x y fw reg = inr (x :: rest).
Proof.
  unfold compute_initial_values.
  destruct (extend_with_trees_prefix (estimators_ (model self)) x y fw reg [x])
    as [rest Hrest].
  exists rest. exact Hrest.
Qed.

(** C8: whatever the input, the target, the whitelist, the regularizer and the
    trees, the initial-value generator returns a list, and the list starts
    with [x]. *)
Theorem initial_values_start_with_x `{Collaborators} (self : IsolationForestCounterfactual)
    (x : vec) (y : Z) (fw : option (list nat)) (reg : regularizer) :
  exists rest,
    compute_initial_values self x y fw reg = inr (x :: rest)
    /\ x :: rest <> []
    /\ hd_error (x :: rest) = Some x.
Proof.
  destruct (compute_initial_values_total self x y fw reg) as [rest Hrest].
  exists rest. split; [exact Hrest|]. split; [discriminate|reflexivity].
Qed.

(** ** The regularization argument *)

(** The guard of [compute_counterfactual]: an argument that is neither a
    string nor callable raises [TypeError]. *)
Lemma resolve_regularization_guard `{Collaborators} (r : regularization_arg) (x : vec) :
  is_str r = false -> callable r = false -> resolve_regularization r x = inl TypeError.
Proof. destruct r; simpl; intros; try discriminate; reflexivity. Qed.

(** C2, the code at [regularization=None]: [None] is not a string and not
    callable, and the call raises [TypeError] before any starting point is
    computed or tried, whatever the other arguments. *)
Theorem regularization_None_raises_TypeError `{Collaborators}
    (self : IsolationForestCounterfactual) (x : vec) (y : Z) (fw : option (list nat))
    (C : C_arg) (opt : optimizer_t) (rd : bool) (done : option (Z -> bool)) :
  is_str RegNone = false
  /\ callable RegNone = false
  /\ compute_counterfactual self x y fw RegNone C opt rd done = (Raise TypeError, []).
Proof. repeat split. Qed.

(** ** The search *)

Lemma attempts_app (l1 l2 : list event) :
  attempts (l1 ++ l2) = attempts l1 ++ attempts l2.
Proof.
  induction l1 as [|[|x0 c y|x0 c e] l1 IH]; simpl; auto; rewrite IH; reflexivity.
Qed.

Lemma predictions_app (l1 l2 : list event) :
  predictions (l1 ++ l2) = predictions l1 ++ predictions l2.
Proof.
  induction l1 as [|[|x0 c y|x0 c e] l1 IH]; simpl; auto. rewrite IH. reflexivity.
Qed.

Lemma attempts_warn (self : IsolationForestCounterfactual) (x : vec) (done : Z -> bool) :
  attempts (warn_if_already_done self x done) = []
  /\ predictions (warn_if_already_done self x done) = [].
Proof. unfold warn_if_already_done. destruct (done _); split; reflexivity. Qed.


Lemma all_rejected_app (done : Z -> bool) (l1 l2 : list event) :
  all_rejected done (l1 ++ l2) <-> all_rejected done l1 /\ all_rejected done l2.
Proof. unfold all_rejected. rewrite predictions_app. apply Forall_app. Qed.

Lemma raised_in_mono `{Collaborators} (self : IsolationForestCounterfactual)
    (x : vec) (y : Z) (fw : option (list nat)) (reg : regularizer) (opt : optimizer_t)
    (xs xs' : list vec) (C C' : list Q) (e : exn) :
  incl xs xs' -> incl C C' ->
  raised_in self x y fw reg opt xs C e -> raised_in self x y fw reg opt xs' C' e.
Proof.
  intros Hxs HC [x0 [Hx0 Hsite]]. exists x0. split; [apply Hxs; exact Hx0|].
  destruct Hsite as [Hw|[c [Hc Hat]]]; [left; exact Hw|].
  right. exists c. split; [apply HC; exact Hc|exact Hat].
Qed.

Lemma for_c_in_C_post `{Collaborators} (self : IsolationForestCounterfactual)
    (x : vec) (y : Z) (fw : option (list nat)) (reg : regularizer) (opt : optimizer_t)
    (done : Z -> bool) (x0 : vec)
    (wrapped : option input_wrapper_t * vec * pred_t * grad_mask_t) (C : list Q) :
  wrap_input self fw x0 opt = inr wrapped ->
  loop_post self x y fw reg opt done [x0] C (map (fun c => (x0, c)) C)
    (for_c_in_C self x y reg opt done x0 wrapped C).
Proof.
  intros Hwrap. destruct wrapped as [[[iw x_orig] pred] gm].
  assert (Hbody : forall c,
             attempt_at self x y fw reg opt x0 c
             = match build_loss self reg x_orig y pred gm c iw with
               | inl e => inl e
               | inr (loss, loss_grad) =>
                   compute_counterfactual_ex self x loss x_orig loss_grad opt iw false
               end).
  { intros c. unfold attempt_at. rewrite Hwrap. reflexivity. }
  induction C as [|c C IH].
  - simpl. split; [exists []; reflexivity|]. split; [constructor|].
    simpl. repeat split; constructor.
  - cbn [for_c_in_C map]. specialize (Hbody c).
    destruct (build_loss self reg x_orig y pred gm c iw) as [e|[loss loss_grad]].
    { split; [eexists; reflexivity|]. split; [constructor|].
      simpl. split; [constructor|].
      exists x0. split; [left; reflexivity|]. right. exists c.
      split; [left; reflexivity|exact Hbody]. }
    destruct (compute_counterfactual_ex self x loss x_orig loss_grad opt iw false)
      as [e|[[x_cf y_cf] delta]].
    { split; [exists (map (fun c => (x0, c)) C); reflexivity|].
      split; [constructor; [exact Hbody|constructor]|].
      simpl. split; [constructor|].
      exists x0. split; [left; reflexivity|]. right. exists c.
      split; [left; reflexivity|exact Hbody]. }
    destruct (done y_cf) eqn:Hdone.
    { split; [exists (map (fun c => (x0, c)) C); reflexivity|].
      split; [constructor; [exists x_cf, delta; exact Hbody|constructor]|].
      simpl. split; [exact Hdone|].
      exists x0, c, []. split; [reflexivity|]. split; [exact Hbody|constructor]. }
    destruct (for_c_in_C self x y reg opt done x0 (iw, x_orig, pred, gm) C) as [r log].
    destruct IH as [[rest Hrest] [Hmatch Hend]]. cbn [fst snd] in *.
    split; [exists rest; simpl; rewrite Hrest; reflexivity|].
    split; [constructor; [exists x_cf, delta; exact Hbody|exact Hmatch]|].
    destruct r as [t| |e].
    + destruct Hend as [Hacc [x1 [c1 [log1 [Hlog [Hat Hrej]]]]]].
      split; [exact Hacc|].
      exists x1, c1, (Attempt x0 c y_cf :: log1).
      split; [rewrite Hlog; reflexivity|]. split; [exact Hat|].
      constructor; [exact Hdone|exact Hrej].
    + destruct Hend as [Hatt [Hrej Hlen]]. split; [simpl; rewrite Hatt; reflexivity|].
      split; [constructor; [exact Hdone|exact Hrej]|].
      simpl. rewrite Hlen. reflexivity.
    + destruct Hend as [Hrej Hsite]. split; [constructor; [exact Hdone|exact Hrej]|].
      apply (raised_in_mono self x y fw reg opt [x0] [x0] C (c :: C) e);
        [apply incl_refl|apply incl_tl; apply incl_refl|exact Hsite].
Qed.

Lemma for_x0_in_x_start_post `{Collaborators} (self : IsolationForestCounterfactual)
    (x : vec) (y : Z) (fw : option (list nat)) (reg : regularizer)
    (opt : optimizer_t) (done : Z -> bool) (C : list Q) (x_start : list vec) :
  loop_post self x y fw reg opt done x_start C (cross_product x_start C)
    (for_x0_in_x_start self x y fw reg opt done C x_start).
Proof.
  induction x_start as [|x0 x_start IH].
  - simpl. split; [exists []; reflexivity|]. split; [constructor|].
    simpl. repeat split; constructor.
  - cbn [for_x0_in_x_start]. unfold cross_product. cbn [flat_map].
    fold (cross_product x_start C).
    destruct (wrap_input self fw x0 opt) as [e|wrapped] eqn:Hwrap.
    { split; [eexists; reflexivity|]. split; [constructor|].
      simpl. split; [constructor|].
      exists x0. split; [left; reflexivity|]. left. exact Hwrap. }
    pose proof (for_c_in_C_post self x y fw reg opt done x0 wrapped C Hwrap) as Hinner.
    destruct (for_c_in_C self x y reg opt done x0 wrapped C) as [r0 log0].
    destruct Hinner as [[rest0 Hrest0] [Hmatch0 Hend0]]. cbn [fst snd] in *.
    destruct r0 as [t| |e].
    + split; [exists (rest0 ++ cross_product x_start C);
              rewrite Hrest0, app_assoc; reflexivity|].
      split; [exact Hmatch0|]. exact Hend0.
    + destruct Hend0 as [Hatt0 [Hrej0 Hlen0]].
      destruct (for_x0_in_x_start self x y fw reg opt done C x_start) as [r log].
      destruct IH as [[rest Hrest] [Hmatch Hend]].
      unfold loop_post. cbn [fst snd] in *.
      split; [exists rest; rewrite attempts_app, Hatt0, <- app_assoc, Hrest;
              reflexivity|].
      split; [apply Forall_app; split; assumption|].
      destruct r as [t| |e].
      * destruct Hend as [Hacc [x1 [c1 [log1 [Hlog [Hat Hrej]]]]]].
        split; [exact Hacc|].
        exists x1, c1, (log0 ++ log1).
        split; [rewrite Hlog, app_assoc; reflexivity|]. split; [exact Hat|].
        apply all_rejected_app. split; assumption.
      * destruct Hend as [Hatt [Hrej Hlen]].
        split; [rewrite attempts_app, Hatt0, Hatt; reflexivity|].
        split; [apply all_rejected_app; split; assumption|].
        rewrite predictions_app, !length_app, Hlen0, Hlen. reflexivity.
      * destruct Hend as [Hrej Hsite].
        split; [apply all_rejected_app; split; assumption|].
        apply (raised_in_mono self x y fw reg opt x_start (x0 :: x_start) C C e);
          [apply incl_tl; apply incl_refl|apply incl_refl|exact Hsite].
    + split; [exists (rest0 ++ cross_product x_start C);
              rewrite Hrest0, app_assoc; reflexivity|].
      split; [exact Hmatch0|].
      destruct Hend0 as [Hrej Hsite]. split; [exact Hrej|].
      apply (raised_in_mono self x y fw reg opt [x0] (x0 :: x_start) C C e);
        [intros z [<-|[]]; left; reflexivity|apply incl_refl|exact Hsite].
Qed.

(** The run of [compute_counterfactual] once the regularization is resolved:
    the starting points exist and begin with [x], the log is the warning
    followed by the log of the loops, and the outcome is the end of the
    loops. *)
Lemma compute_counterfactual_run `{Collaborators} (self : IsolationForestCounterfactual)
    (x : vec) (y : Z) (fw : option (list nat)) (regularization : regularization_arg)
    (C : C_arg) (opt : optimizer_t) (rd : bool) (done : option (Z -> bool))
    (reg : regularizer) :
  resolve_regularization regularization x = inr reg ->
  exists x_start ended log,
    compute_initial_values self x y fw reg = inr x_start
    /\ hd_error x_start = Some x
    /\ for_x0_in_x_start self x y fw reg opt (resolve_done done y) (normalize_C C) x_start
       = (ended, log)
    /\ compute_counterfactual self x y fw regularization C opt rd done
       = (search_outcome rd ended,
          warn_if_already_done self x (resolve_done done y) ++ log)
    /\ loop_post self x y fw reg opt (resolve_done done y) x_start (normalize_C C)
         (cross_product x_start (normalize_C C)) (ended, log).
Proof.
  intros Hreg.
  destruct (compute_initial_values_total self x y fw reg) as [rest0 Hstart].
  pose proof (for_x0_in_x_start_post self x y fw reg opt (resolve_done done y)
                (normalize_C C) (x :: rest0)) as Hpost.
  destruct (for_x0_in_x_start self x y fw reg opt (resolve_done done y)
              (normalize_C C) (x :: rest0)) as [ended log] eqn:Hrun.
  exists (x :: rest0), ended, log.
  split; [exact Hstart|]. split; [reflexivity|]. split; [exact Hrun|].
  split; [|exact Hpost].
  unfold compute_counterfactual. rewrite Hreg, Hstart, Hrun.
  destruct ended; reflexivity.
Qed.






(** ** The entry point *)

(** C9, as the code has it: the entry point takes the model, [x], the target,
    the whitelist, the regularization, [C], the optimizer and
    [return_as_dict], and no acceptance predicate; for an isolation forest it
    is the method [compute_counterfactual] with [done=None], so a returned
    prediction equals the target.  The predicate is a parameter of the method
    only. *)
Theorem entry_point_decides_by_equality `{Collaborators} (m : sklearn_IsolationForest)
    (x : vec) (y : Z) (fw : option (list nat)) (regularization : regularization_arg)
    (C : C_arg) (opt : optimizer_t) (rd : bool) :
  let run := isolationforest_generate_counterfactual (AnIsolationForest m) x y fw
               regularization C opt rd in
  ~ In "done"%string isolationforest_generate_counterfactual_params
  /\ In "done"%string compute_counterfactual_params
  /\ run = compute_counterfactual
             (mkIsolationForestCounterfactual m (mkIsolationForest m))
             x y fw regularization C opt rd None
  /\ match fst run with
     | Return r => result_y_cf r = y
     | Raise _ => True
     end.
Proof.
  cbv zeta. split; [not_among|].
  split; [simpl; tauto|]. split; [reflexivity|].
  unfold isolationforest_generate_counterfactual. cbn [IsolationForestCounterfactual_init
    rebuild_model IsolationForest_init].
  destruct (resolve_regularization regularization x) as [e|reg] eqn:Hreg.
  - unfold compute_counterfactual. rewrite Hreg. exact I.
  - destruct (compute_counterfactual_run
                (mkIsolationForestCounterfactual m (mkIsolationForest m))
                x y fw regularization C opt rd None reg Hreg)
      as [xs [ended [log [_ [_ [_ [Hrun Hpost]]]]]]].
    rewrite Hrun. cbn [fst].
    destruct Hpost as [_ [_ Hend]]. cbn [fst snd] in Hend.
    destruct ended as [t| |e]; cbn [search_outcome]; [|exact I|exact I].
    destruct Hend as [Hacc _]. simpl in Hacc. apply Z.eqb_eq in Hacc.
    destruct t as [[x_cf y_cf] delta]. unfold build_result. destruct rd; exact Hacc.
Qed.

(** C9, counterexample: a predicate that accepts every prediction makes the
    method return at once, while the entry point, called with the same
    arguments, has nowhere to take the predicate and raises the exhaustion
    error. *)
Lemma entry_point_takes_no_predicate :
  ~ In "done"%string isolationforest_generate_counterfactual_params
  /\ fst (@compute_counterfactual reference explainer [1] 1 None (RegName "l1")
            (C_float 1) stay_put false (Some (fun _ => true)))
     = Return (ResultTriple [1] (-1) [0])
  /\ fst (@isolationforest_generate_counterfactual reference
            (AnIsolationForest all_outliers) [1] 1 None (RegName "l1")
            (C_float 1) stay_put false)
     = Raise NoCounterfactualFound.
Proof.
  split; [not_among|].
  split; reflexivity.
Qed.

(** * Further properties of the module *)

(** ** The loss *)

Lemma np_mean_cons (a : nat) (l : list nat) :
  np_mean (a :: l)
  = Some (inject_Z (Z.of_nat (list_sum (a :: l))) / inject_Z (Z.of_nat (length (a :: l)))).
Proof. reflexivity. Qed.

(** X1: the loss of the target [-y] is the opposite of the loss of the
    target [y]: what lowers the loss for the inlier target raises it for the
    outlier target by the same amount. *)
Theorem loss_flips_with_target (t : tree) (trees : list tree) (y : Z)
    (iw : option input_wrapper_t) (eps : Q) (x : vec) :
  exists a b,
    score_impl (IsolationForestCost_init (t :: trees) y iw eps) x = Some a
    /\ score_impl (IsolationForestCost_init (t :: trees) (- y) iw eps) x = Some b
    /\ b == - a.
Proof.
  unfold score_impl, IsolationForestCost_init. cbn [models y_target].
  cbn [map]. rewrite np_mean_cons. cbn [option_map].
  eexists. eexists. split; [reflexivity|]. split; [reflexivity|].
  rewrite inject_Z_opp. ring.
Qed.

Lemma path_edges_le_height (t : tree) (x : vec) : (path_edges t x <= height t)%nat.
Proof.
  induction t as [|f th l IHl r IHr]; simpl; [lia|].
  destruct (goes_left x f th); lia.
Qed.

Lemma list_sum_nodes_bounds (trees : list tree) (x : vec) :
  (length trees <= list_sum (map (fun t => indicator_sum (decision_path t x)) trees)
   /\ list_sum (map (fun t => indicator_sum (decision_path t x)) trees)
      <= length trees * S (list_max (map height trees)))%nat.
Proof.
  induction trees as [|t trees [IHlo IHhi]]; simpl; [lia|].
  rewrite decision_path_sum.
  pose proof (path_edges_le_height t x) as Ht.
  split; [lia|]. nia.
Qed.

(** The mean number of nodes on the decision paths lies between 1 and one
    more than the height of the tallest tree. *)
Lemma np_mean_nodes_bounds (t : tree) (trees : list tree) (x : vec) :
  exists m,
    np_mean (map (fun t => indicator_sum (decision_path t x)) (t :: trees)) = Some m
    /\ 1 <= m
    /\ m <= inject_Z (Z.of_nat (S (list_max (map height (t :: trees))))).
Proof.
  remember (t :: trees) as ts eqn:Hts.
  assert (Hlen : (0 < length ts)%nat) by (subst ts; simpl; lia).
  destruct (list_sum_nodes_bounds ts x) as [Hlo Hhi].
  exists (inject_Z (Z.of_nat (list_sum (map (fun t => indicator_sum (decision_path t x)) ts)))
          / inject_Z (Z.of_nat (length ts))).
  assert (Hpos : 0 < inject_Z (Z.of_nat (length ts))).
  { replace 0 with (inject_Z 0) by reflexivity. rewrite <- Zlt_Qlt. lia. }
  split.
  { subst ts. cbn [map]. rewrite np_mean_cons. cbn [length]. rewrite length_map.
    reflexivity. }
  split.
  - apply Qle_shift_div_l; [exact Hpos|]. rewrite Qmult_1_l.
    rewrite <- Zle_Qle. lia.
  - apply Qle_shift_div_r; [exact Hpos|]. rewrite <- inject_Z_mult, <- Zle_Qle.
    rewrite <- Nat2Z.inj_mul. apply Nat2Z.inj_le. lia.
Qed.

(** X2: for an ensemble of at least one tree the loss of the inlier target
    lies between minus one more than the height of the tallest tree and -1,
    and the loss of the outlier target between 1 and one more than that
    height; the loss is never 0. *)
Theorem loss_range (t : tree) (trees : list tree) (iw : option input_wrapper_t)
    (eps : Q) (x : vec) :
  let top := inject_Z (Z.of_nat (S (list_max (map height (t :: trees))))) in
  exists inlier outlier,
    score_impl (IsolationForestCost_init (t :: trees) 1 iw eps) x = Some inlier
    /\ score_impl (IsolationForestCost_init (t :: trees) (-1) iw eps) x = Some outlier
    /\ - top <= inlier /\ inlier <= - (1)
    /\ 1 <= outlier /\ outlier <= top.
Proof.
  cbv zeta. destruct (np_mean_nodes_bounds t trees x) as [m [Hm [Hlo Hhi]]].
  unfold score_impl, IsolationForestCost_init. cbn [models y_target].
  rewrite Hm. cbn [option_map].
  eexists. eexists. split; [reflexivity|]. split; [reflexivity|].
  set (top := inject_Z (Z.of_nat (S (list_max (map height (t :: trees)))))) in *.
  assert (E1 : -1 * inject_Z 1 * m == - m) by (simpl; ring).
  assert (E2 : -1 * inject_Z (-1) * m == m) by (simpl; ring).
  rewrite E1, E2.
  repeat split; try assumption.
  - apply Qopp_le_compat. exact Hhi.
  - apply Qopp_le_compat in Hlo. exact Hlo.
Qed.

Lemma list_sum_permutation (l l' : list nat) :
  Permutation.Permutation l l' -> list_sum l = list_sum l'.
Proof.
  induction 1; simpl; lia.
Qed.

(** X4: the loss does not depend on the order of the trees in the ensemble. *)
Theorem loss_ignores_tree_order (trees trees' : list tree) (y : Z)
    (iw : option input_wrapper_t) (eps : Q) (x : vec)
    (Hperm : Permutation.Permutation trees trees') :
  score_impl (IsolationForestCost_init trees y iw eps) x
  = score_impl (IsolationForestCost_init trees' y iw eps) x.
Proof.
  unfold score_impl, IsolationForestCost_init. cbn [models y_target]. f_equal.
  pose proof (Permutation.Permutation_map
                (fun t => indicator_sum (decision_path t x)) Hperm) as Hmap.
  pose proof (list_sum_permutation _ _ Hmap) as Hsum.
  pose proof (Permutation.Permutation_length Hmap) as Hlen.
  unfold np_mean.
  destruct (map (fun t => indicator_sum (decision_path t x)) trees) as [|a l] eqn:E1;
    destruct (map (fun t => indicator_sum (decision_path t x)) trees') as [|a' l'] eqn:E2;
    try discriminate; [reflexivity|].
  rewrite Hsum, Hlen. reflexivity.
Qed.

Lemma loss_ignores_tree_order_witness :
  score_impl (IsolationForestCost_init [stump; uneven] 1 None 0) [1; 1; 1]
  = score_impl (IsolationForestCost_init [uneven; stump] 1 None 0) [1; 1; 1].
Proof.
  apply (loss_ignores_tree_order [stump; uneven] [uneven; stump] 1 None 0 [1; 1; 1]).
  apply Permutation.perm_swap.
Defined.

(** ** The candidate paths of a tree *)

(** X5: the length filter never removes every path: the paths handed to
    [score_adjustments] are leaf paths of the tree, every leaf path whose
    length is the target length is among them, and there is at least one. *)
Theorem candidate_paths_keep_the_target (model : tree) (y : Z) :
  exists t paths,
    target_length y (with_lengths (get_leafs_from_tree model)) = Some t
    /\ candidate_paths model y = inr paths
    /\ incl paths (get_leafs_from_tree model)
    /\ (forall p, In p (get_leafs_from_tree model) -> length p = t -> In p paths)
    /\ paths <> [].
Proof.
  destruct (target_length_spec model y) as [t [Ht [Hin [_ Hc]]]].
  destruct (candidate_paths_spec model y) as [t' [paths [Ht' [Hc' Hiff]]]].
  rewrite Ht in Ht'. injection Ht' as <-.
  exists t, paths. split; [exact Ht|]. split; [exact Hc'|].
  assert (Hkeep : forall p, In p (get_leafs_from_tree model) -> length p = t -> In p paths).
  { intros p Hp Hlen. apply Hiff. split; [exact Hp|]. rewrite Hlen. lia. }
  split; [|split; [exact Hkeep|]].
  - intros p Hp. apply Hiff in Hp. exact (proj1 Hp).
  - apply in_map_iff in Hin. destruct Hin as [p [Hlen Hp]].
    intros Hnil. pose proof (Hkeep p Hp Hlen) as Hmem. rewrite Hnil in Hmem.
    exact Hmem.
Qed.

(** X6: the kept paths are one-sided around the target length: for the
    outlier target they have the shortest length of the tree or one step
    more, for any other target the longest length or one step less. *)
Theorem candidate_paths_length_window (model : tree) (y : Z) :
  exists t paths,
    target_length y (with_lengths (get_leafs_from_tree model)) = Some t
    /\ candidate_paths model y = inr paths
    /\ (if (y =? -1)%Z
        then forall p, In p paths -> length p = t \/ length p = S t
        else forall p, In p paths -> length p = t \/ S (length p) = t).
Proof.
  destruct (target_length_spec model y) as [t [Ht [_ [Hext _]]]].
  destruct (candidate_paths_spec model y) as [t' [paths [Ht' [Hc' Hiff]]]].
  rewrite Ht in Ht'. injection Ht' as <-.
  exists t, paths. split; [exact Ht|]. split; [exact Hc'|].
  destruct (y =? -1)%Z; intros p Hp; apply Hiff in Hp; destruct Hp as [Hp Hd];
    assert (Hl : In (length p) (map (@length step) (get_leafs_from_tree model)))
      by (apply in_map; exact Hp);
    specialize (Hext _ Hl); lia.
Qed.

(** ** The whitelist check *)

Lemma used_protected_attributes_self (x : vec) (wl : list nat) :
  used_protected_attributes x x wl = false.
Proof.
  apply used_protected_attributes_false_iff; [reflexivity|].
  intros i _ _. reflexivity.
Qed.

(** X7: an adjusted input that is [x] itself, the case of a path [x] already
    follows, is returned whatever the whitelist, the empty one included. *)
Theorem unchanged_candidate_is_kept `{Collaborators} (model : tree) (x : vec) (y : Z)
    (wl : list nat) (reg : regularizer) :
  used_protected_attributes x x wl = false
  /\ exists paths cfs,
       candidate_paths model y = inr paths
       /\ compute_counterfactuals_isolationtree model x y (Some wl) reg = inr cfs
       /\ (In x (adjusted_inputs model x paths reg) <-> In x cfs).
Proof.
  split; [apply used_protected_attributes_self|].
  destruct (candidate_paths_spec model y) as [t [paths [_ [Hc _]]]].
  exists paths. eexists. split; [exact Hc|].
  unfold compute_counterfactuals_isolationtree. rewrite Hc.
  split; [reflexivity|].
  unfold drop_protected. rewrite filter_In, used_protected_attributes_self.
  simpl. tauto.
Qed.

Lemma used_protected_attributes_mono (x cf : vec) (wl wl' : list nat) :
  incl wl wl' ->
  used_protected_attributes x cf wl = false ->
  used_protected_attributes x cf wl' = false.
Proof.
  intros Hincl Hused. unfold used_protected_attributes in *.
  destruct (existsb _ (seq 0 (length (vec_sub x cf)))) eqn:Hex in |- *; [|reflexivity].
  apply existsb_exists in Hex. destruct Hex as [i [Hin Hi]].
  apply andb_true_iff in Hi. destruct Hi as [Hmem Hq].
  apply negb_true_iff in Hmem.
  assert (Ht : existsb
            (fun i => negb (existsb (Nat.eqb i) wl)
                      && negb (Qeq_bool (nth i (vec_sub x cf) 0) 0))
            (seq 0 (length (vec_sub x cf))) = true).
  { apply existsb_exists. exists i. split; [exact Hin|].
    rewrite Hq, andb_true_r. apply negb_true_iff.
    destruct (existsb (Nat.eqb i) wl) eqn:Hwl; [|reflexivity].
    apply existsb_eqb_In in Hwl. apply Hincl in Hwl.
    apply existsb_eqb_In in Hwl. rewrite Hwl in Hmem. discriminate. }
  rewrite Ht in Hused. discriminate.
Qed.

(** X8: a whitelist only removes candidates, and a larger whitelist removes
    fewer: the candidates of a whitelist are among those of any whitelist
    that contains it, which are among the candidates without a whitelist. *)
Theorem larger_whitelist_keeps_more `{Collaborators} (model : tree) (x : vec) (y : Z)
    (wl wl' : list nat) (reg : regularizer) (Hincl : incl wl wl') :
  exists small large all,
    compute_counterfactuals_isolationtree model x y (Some wl) reg = inr small
    /\ compute_counterfactuals_isolationtree model x y (Some wl') reg = inr large
    /\ compute_counterfactuals_isolationtree model x y None reg = inr all
    /\ incl small large
    /\ incl large all.
Proof.
  destruct (candidate_paths_spec model y) as [t [paths [_ [Hc _]]]].
  unfold compute_counterfactuals_isolationtree. rewrite Hc.
  eexists. eexists. eexists.
  split; [reflexivity|]. split; [reflexivity|]. split; [reflexivity|].
  unfold drop_protected. split; intros cf Hin; apply filter_In in Hin;
    destruct Hin as [Hin Hok]; [|exact Hin].
  apply filter_In. split; [exact Hin|].
  apply negb_true_iff. apply negb_true_iff in Hok.
  apply (used_protected_attributes_mono x cf wl wl' Hincl Hok).
Qed.

Lemma larger_whitelist_keeps_more_witness :
  exists small large all,
    @compute_counterfactuals_isolationtree reference uneven [1; 1; 1] 1
      (Some [0%nat]) (L1Cost [1; 1; 1]) = inr small
    /\ @compute_counterfactuals_isolationtree reference uneven [1; 1; 1] 1
         (Some [0%nat; 1%nat]) (L1Cost [1; 1; 1]) = inr large
    /\ @compute_counterfactuals_isolationtree reference uneven [1; 1; 1] 1
         None (L1Cost [1; 1; 1]) = inr all
    /\ incl small large
    /\ incl large all.
Proof.
  apply (@larger_whitelist_keeps_more reference uneven [1; 1; 1] 1
           [0%nat] [0%nat; 1%nat] (L1Cost [1; 1; 1])).
  intros i [<-|[]]. simpl. auto.
Defined.

Lemma vec_sub_length_le (x cf : vec) : (length (vec_sub x cf) <= length x)%nat.
Proof.
  revert cf. induction x as [|a x IH]; intros [|b cf]; simpl; try lia.
  specialize (IH cf). lia.
Qed.

(** X9: a whitelist that names every index of [x] is the same as no
    whitelist: nothing is removed. *)
Theorem full_whitelist_drops_nothing `{Collaborators} (model : tree) (x : vec) (y : Z)
    (wl : list nat) (reg : regularizer)
    (Hfull : forall i, (i < length x)%nat -> In i wl) :
  compute_counterfactuals_isolationtree model x y (Some wl) reg
  = compute_counterfactuals_isolationtree model x y None reg.
Proof.
  unfold compute_counterfactuals_isolationtree.
  destruct (candidate_paths model y) as [e|paths]; [reflexivity|].
  f_equal. unfold drop_protected.
  apply forallb_filter_id. apply forallb_forall. intros cf _.
  apply negb_true_iff. unfold used_protected_attributes.
  destruct (existsb _ (seq 0 (length (vec_sub x cf)))) eqn:Hex; [|reflexivity].
  apply existsb_exists in Hex. destruct Hex as [i [Hin Hi]].
  apply in_seq in Hin. apply andb_true_iff in Hi. destruct Hi as [Hmem _].
  apply negb_true_iff in Hmem.
  pose proof (vec_sub_length_le x cf) as Hle.
  assert (Hwl : In i wl) by (apply Hfull; lia).
  apply existsb_eqb_In in Hwl. rewrite Hwl in Hmem. discriminate.
Qed.

Lemma full_whitelist_drops_nothing_witness :
  @compute_counterfactuals_isolationtree reference uneven [1; 1; 1] 1
    (Some [0%nat; 1%nat; 2%nat]) (L1Cost [1; 1; 1])
  = @compute_counterfactuals_isolationtree reference uneven [1; 1; 1] 1
      None (L1Cost [1; 1; 1]).
Proof.
  apply (@full_whitelist_drops_nothing reference uneven [1; 1; 1] 1
           [0%nat; 1%nat; 2%nat] (L1Cost [1; 1; 1])).
  intros i Hi. simpl in Hi.
  destruct i as [|[|[|i]]]; simpl; auto. lia.
Defined.

(** ** The initial values as a whole *)

Lemma extend_with_trees_concat `{Collaborators} (trees : list tree) (x : vec) (y : Z)
    (fw : option (list nat)) (reg : regularizer) (result : list vec) :
  exists per_tree,
    Forall2 (fun m cfs => compute_counterfactuals_isolationtree m x y fw reg = inr cfs)
            trees per_tree
    /\ extend_with_trees trees x y fw reg result = inr (result ++ concat per_tree).
Proof.
  revert result. induction trees as [|m trees IH]; intros result; simpl.
  - exists []. split; [constructor|]. simpl. rewrite app_nil_r. reflexivity.
  - destruct (compute_counterfactuals_isolationtree_total m x y fw reg) as [cfs Hcfs].
    rewrite Hcfs. destruct (IH (result ++ cfs)) as [per_tree [Hall Hrest]].
    exists (cfs :: per_tree). split; [constructor; assumption|].
    rewrite Hrest. simpl. rewrite app_assoc. reflexivity.
Qed.

(** X10: the starting points are [x] followed by the candidates of the first
    tree, then those of the second, and so on in the order of the ensemble;
    their number is one more than the number of candidates of all trees. *)
Theorem initial_values_are_x_then_each_tree `{Collaborators}
    (self : IsolationForestCounterfactual) (x : vec) (y : Z) (fw : option (list nat))
    (reg : regularizer) :
  exists per_tree,
    Forall2 (fun m cfs => compute_counterfactuals_isolationtree m x y fw reg = inr cfs)
            (estimators_ (model self)) per_tree
    /\ compute_initial_values self x y fw reg = inr (x :: concat per_tree)
    /\ length (x :: concat per_tree) = S (list_sum (map (@length vec) per_tree)).
Proof.
  destruct (extend_with_trees_concat (estimators_ (model self)) x y fw reg [x])
    as [per_tree [Hall Hrun]].
  exists per_tree. split; [exact Hall|]. split; [exact Hrun|].
  simpl. f_equal. clear. induction per_tree as [|l per_tree IH]; simpl; [reflexivity|].
  rewrite length_app, IH. reflexivity.
Qed.

Lemma Forall2_In_right {A B} (R : A -> B -> Prop) (l : list A) (l' : list B) (b : B) :
  Forall2 R l l' -> In b l' -> exists a, In a l /\ R a b.
Proof.
  induction 1 as [|a0 b0 l l' Hab _ IH]; intros Hin; [destruct Hin|].
  destruct Hin as [<-|Hin].
  - exists a0. split; [left; reflexivity|exact Hab].
  - destruct (IH Hin) as [a [Ha HR]]. exists a. split; [right; exact Ha|exact HR].
Qed.

Lemma drop_protected_respects `{Collaborators} (model : tree) (x : vec) (wl : list nat)
    (paths : list path) (reg : regularizer) :
  (forall a, length (apply_adjustment x a) = length x) ->
  forall cf, In cf (drop_protected x (Some wl) (adjusted_inputs model x paths reg)) ->
             only_whitelisted_changes x cf wl.
Proof.
  intros Hshape cf Hin. unfold drop_protected in Hin. apply filter_In in Hin.
  destruct Hin as [Hin Hok]. apply negb_true_iff in Hok.
  apply used_protected_attributes_false_iff; [|exact Hok].
  unfold adjusted_inputs in Hin. apply in_map_iff in Hin.
  destruct Hin as [a [<- _]]. apply Hshape.
Qed.

(** X11: with a whitelist, and adjustments that keep the shape of [x], every
    starting point of the search, [x] itself and the candidates of all trees,
    differs from [x] at whitelisted indices only. *)
Theorem starting_points_respect_whitelist `{Collaborators}
    (self : IsolationForestCounterfactual) (x : vec) (y : Z) (wl : list nat)
    (reg : regularizer)
    (Hshape : forall a, length (apply_adjustment x a) = length x) :
  exists x_start,
    compute_initial_values self x y (Some wl) reg = inr x_start
    /\ forall x0, In x0 x_start -> only_whitelisted_changes x x0 wl.
Proof.
  destruct (extend_with_trees_concat (estimators_ (model self)) x y (Some wl) reg [x])
    as [per_tree [Hall Hrun]].
  exists (x :: concat per_tree). split; [exact Hrun|].
  intros x0 [<-|Hin].
  - intros i _ _. reflexivity.
  - apply in_concat in Hin. destruct Hin as [cfs [Hcfs Hx0]].
    destruct (Forall2_In_right _ _ _ cfs Hall Hcfs) as [m [_ Hm]].
    unfold compute_counterfactuals_isolationtree in Hm.
    destruct (candidate_paths m y) as [e|paths]; [discriminate|].
    injection Hm as <-.
    apply (drop_protected_respects m x wl paths reg Hshape x0 Hx0).
Qed.

Lemma starting_points_respect_whitelist_witness :
  exists x_start,
    @compute_initial_values reference
      (mkIsolationForestCounterfactual
         (mkSklearnIsolationForest [stump; uneven] (fun _ => 1%Z))
         (mkIsolationForest (mkSklearnIsolationForest [stump; uneven] (fun _ => 1%Z))))
      [1; 1; 1] 1 (Some [1%nat]) (L1Cost [1; 1; 1]) = inr x_start
    /\ forall x0, In x0 x_start -> only_whitelisted_changes [1; 1; 1] x0 [1%nat].
Proof.
  apply (@starting_points_respect_whitelist reference
           (mkIsolationForestCounterfactual
              (mkSklearnIsolationForest [stump; uneven] (fun _ => 1%Z))
              (mkIsolationForest (mkSklearnIsolationForest [stump; uneven] (fun _ => 1%Z))))
           [1; 1; 1] 1 [1%nat] (L1Cost [1; 1; 1])).
  intros a. apply ref_apply_adjustment_length.
Defined.

(** ** The search, attempt by attempt *)








Lemma cross_product_length (x_start : list vec) (C : list Q) :
  length (cross_product x_start C) = (length x_start * length C)%nat.
Proof.
  unfold cross_product. induction x_start as [|x0 x_start IH]; simpl; [reflexivity|].
  rewrite length_app, length_map, IH. reflexivity.
Qed.

(** X15: the optimizer is called at most once per pair of starting point and
    strength: the number of attempts of a run is at most the number of
    starting points times the number of strengths. *)
Theorem attempts_are_bounded `{Collaborators} (self : IsolationForestCounterfactual)
    (x : vec) (y : Z) (fw : option (list nat)) (regularization : regularization_arg)
    (C : C_arg) (opt : optimizer_t) (rd : bool) (done : option (Z -> bool))
    (reg : regularizer)
    (Hreg : resolve_regularization regularization x = inr reg) :
  exists x_start,
    compute_initial_values self x y fw reg = inr x_start
    /\ (length (attempts (snd (compute_counterfactual self x y fw regularization C
                                 opt rd done)))
        <= length x_start * length (normalize_C C))%nat.
Proof.
  destruct (compute_counterfactual_run self x y fw regularization C opt rd done reg Hreg)
    as [x_start [ended [log [Hstart [_ [_ [Hrun [[rest Hrest] _]]]]]]]].
  exists x_start. split; [exact Hstart|].
  rewrite Hrun. cbn [fst snd] in *.
  rewrite attempts_app, (proj1 (attempts_warn self x (resolve_done done y))).
  cbn [app]. rewrite <- cross_product_length, Hrest, length_app. lia.
Qed.

Lemma attempts_are_bounded_witness :
  exists x_start,
    @compute_initial_values reference left_explainer [1] 1 None (L1Cost [1]) = inr x_start
    /\ (length (attempts (snd (@compute_counterfactual reference left_explainer
                                 [1%Q] 1%Z None (RegName "l1")
                                 (C_list [1%Q; (1 # 10)%Q]) stay_put false None)))
        <= length x_start * length (normalize_C (C_list [1%Q; (1 # 10)%Q])))%nat.
Proof.
  apply (@attempts_are_bounded reference left_explainer [1] 1 None
           (RegName "l1") (C_list [1; 1 # 10]) stay_put false None (L1Cost [1])).
  reflexivity.
Defined.

(** ** The shape of the result and the errors *)

(** X16: [return_as_dict] changes the shape of the result and nothing else:
    the two calls make the same attempts and either raise the same error or
    return the same three values, once as a dictionary and once as a triple. *)
Theorem return_as_dict_changes_shape_only `{Collaborators}
    (self : IsolationForestCounterfactual) (x : vec) (y : Z) (fw : option (list nat))
    (regularization : regularization_arg) (C : C_arg) (opt : optimizer_t)
    (done : option (Z -> bool)) :
  let as_dict := compute_counterfactual self x y fw regularization C opt true done in
  let as_triple := compute_counterfactual self x y fw regularization C opt false done in
  snd as_dict = snd as_triple
  /\ ((exists e, fst as_dict = Raise e /\ fst as_triple = Raise e)
      \/ (exists x_cf y_cf delta,
            fst as_dict = Return (ResultDict x_cf y_cf delta)
            /\ fst as_triple = Return (ResultTriple x_cf y_cf delta))).
Proof.
  cbv zeta. unfold compute_counterfactual.
  destruct (resolve_regularization regularization x) as [e|reg].
  { split; [reflexivity|]. left. exists e. split; reflexivity. }
  destruct (compute_initial_values self x y fw reg) as [e|x_start].
  { split; [reflexivity|]. left. exists e. split; reflexivity. }
  destruct (for_x0_in_x_start self x y fw reg opt (resolve_done done y)
              (normalize_C C) x_start) as [[[[x_cf y_cf] delta]| |e] log].
  - split; [reflexivity|]. right. exists x_cf, y_cf, delta. split; reflexivity.
  - split; [reflexivity|]. left. exists NoCounterfactualFound. split; reflexivity.
  - split; [reflexivity|]. left. exists e. split; reflexivity.
Qed.

(** X18: the entry point checks the model first: for a model that is not an
    isolation forest it raises [TypeError] whatever the other arguments are
    and tries nothing; for an isolation forest whose regularization argument
    is refused it raises the error of that argument, and tries nothing. *)
Theorem entry_point_type_errors `{Collaborators} (m : sklearn_IsolationForest)
    (x : vec) (y : Z) (fw : option (list nat)) (regularization : regularization_arg)
    (C : C_arg) (opt : optimizer_t) (rd : bool) :
  isolationforest_generate_counterfactual AnotherModel x y fw regularization C opt rd
  = (Raise TypeError, [])
  /\ match resolve_regularization regularization x with
     | inl e =>
         isolationforest_generate_counterfactual (AnIsolationForest m) x y fw
           regularization C opt rd = (Raise e, [])
     | inr _ => True
     end.
Proof.
  split; [reflexivity|].
  unfold isolationforest_generate_counterfactual.
  cbn [IsolationForestCounterfactual_init rebuild_model IsolationForest_init].
  unfold compute_counterfactual.
  destruct (resolve_regularization regularization x) as [e|reg]; [reflexivity|exact I].
Qed.

(** X19: an exception of the first attempt ends the call: when wrapping [x],
    building the loss or the optimizer raises at [x] and the first strength
    of [C], the call raises that exception, tries nothing after it and
    returns no result; the exception is not caught and no further strength or
    starting point is tried. *)
Theorem first_failure_is_passed_on `{Collaborators} (self : IsolationForestCounterfactual)
    (x : vec) (y : Z) (fw : option (list nat)) (regularization : regularization_arg)
    (C : C_arg) (opt : optimizer_t) (rd : bool) (done : option (Z -> bool))
    (reg : regularizer) (c : Q) (cs : list Q) (e : exn)
    (Hreg : resolve_regularization regularization x = inr reg)
    (HC : normalize_C C = c :: cs)
    (Hat : attempt_at self x y fw reg opt x c = inl e) :
  let run := compute_counterfactual self x y fw regularization C opt rd done in
  fst run = Raise e
  /\ predictions (snd run) = []
  /\ (length (attempts (snd run)) <= 1)%nat.
Proof.
  cbv zeta. unfold compute_counterfactual. rewrite Hreg.
  destruct (compute_initial_values_total self x y fw reg) as [rest Hstart].
  rewrite Hstart, HC. cbn [for_x0_in_x_start].
  destruct (attempts_warn self x (resolve_done done y)) as [Hwa Hwp].
  unfold attempt_at in Hat.
  destruct (wrap_input self fw x opt) as [e'|[[[iw x_orig] pred] gm]].
  { injection Hat as ->. cbn [fst snd]. rewrite app_nil_r, Hwa, Hwp.
    split; [reflexivity|]. split; [reflexivity|]. simpl. lia. }
  cbn [for_c_in_C].
  destruct (build_loss self reg x_orig y pred gm c iw) as [e'|[loss loss_grad]].
  { injection Hat as ->. cbn [fst snd]. rewrite app_nil_r, Hwa, Hwp.
    split; [reflexivity|]. split; [reflexivity|]. simpl. lia. }
  rewrite Hat. cbn [fst snd]. rewrite attempts_app, predictions_app, Hwa, Hwp.
  split; [reflexivity|]. split; [reflexivity|]. simpl. lia.
Qed.

Lemma first_failure_is_passed_on_witness :
  let run := @compute_counterfactual reference left_explainer [1] 1 None
               (RegName "l1") (C_list [1; 1 # 10]) broken_minimizer false None in
  fst run = Raise ValueError
  /\ predictions (snd run) = []
  /\ (length (attempts (snd run)) <= 1)%nat.
Proof.
  apply (@first_failure_is_passed_on reference left_explainer [1] 1 None
           (RegName "l1") (C_list [1; 1 # 10]) broken_minimizer false None
           (L1Cost [1]) 1 [1 # 10] ValueError).
  - reflexivity.
  - reflexivity.
  - reflexivity.
Defined.
